(** * The marketing layout of trello-app

    Source: [src/trello-app/src/app/(marketing)/layout.tsx].

    The file declares one React function component, [MarketingLayout], whose
    body is a single [return] of a JSX expression: a [div] wrapping a [main]
    wrapping the [children] prop.  JSX is sugar for calls of the element
    factory ([jsx(type, props)]), which allocates a new element object; the
    component is therefore modelled as a computation over a JavaScript store,
    so that object identity, aliasing of the payload and the absence of
    writes can be stated and proved. *)

From stdpp Require Import base option list strings gmap.
From Stdlib Require Import ZArith Lia.

Set Warnings "-register-all".

Open Scope string_scope.

(** ** JavaScript values and the store *)

Abbreviation loc := positive.

(** A runtime value: a primitive, or a reference to an object of the store.
    [React.ReactNode] is a compile-time annotation only; at run time the
    [children] prop can be any of these. *)
Inductive JsValue : Type :=
  | VUndefined
  | VNull
  | VBool (b : bool)
  | VNumber (z : Z)
  | VString (s : string)
  | VRef (l : loc).

Global Instance JsValue_eq_dec : EqDecision JsValue.
Proof. solve_decision. Defined.

(** An object literal [{ k1: v1, k2: v2 }] is the list of its own properties
    in insertion order.  Property read [o.k]: the value of the first entry
    named [k], and [undefined] when there is none. *)
Fixpoint get_prop (k : string) (o : list (string * JsValue)) : JsValue :=
  match o with
  | [] => VUndefined
  | (k', v) :: o' => if String.eqb k k' then v else get_prop k o'
  end.

(** Objects of the store: React elements (their [type], [key] and [props])
    and arrays. *)
Inductive HeapObj : Type :=
  | OElement (type : string) (key : option string)
             (props : list (string * JsValue))
  | OArray (items : list JsValue).

(** What a call can do to the outside of the store: console output, network
    requests and storage writes. *)
Inductive Effect : Type :=
  | ConsoleWrite (msg : string)
  | NetworkRequest (url : string)
  | StorageWrite (k v : string).

Record World : Type := mkWorld {
  heap : gmap positive HeapObj;
  effects : list Effect
}.

(** ** Computations: state passing with abrupt completion *)

Inductive Completion (A : Type) : Type :=
  | Normal (a : A) (w : World)
  | Throw (e : JsValue) (w : World).
Arguments Normal {A} a w.
Arguments Throw {A} e w.

Definition JS (A : Type) : Type := World → Completion A.

Global Instance JS_ret : MRet JS := λ A a w, Normal a w.

Global Instance JS_bind : MBind JS := λ A B k m w,
  match m w with
  | Normal a w' => k a w'
  | Throw e w' => Throw e w'
  end.

(** Allocation of a new object at an address that is not in use. *)
Definition alloc (o : HeapObj) : JS JsValue := λ w,
  let l := fresh (dom (heap w)) in
  Normal (VRef l) (mkWorld (<[l := o]> (heap w)) (effects w)).

(** The element factory of the JSX runtime in a production build,
    [jsx(type, props)] without a key: it builds a new element object with
    [key = null] and the given props, and touches nothing else.  (The factory
    of a development build, which also checks keys, is [jsxDEV] below.) *)
Definition jsx (type : string) (props : list (string * JsValue))
  : JS JsValue :=
  alloc (OElement type None props).

(** ** The component *)

(** [const MarketingLayout = ({ children }: MarketingLayoutProps) => {
       return (
         <div className="bg-slate-100 h-full">
           <main className="pt-40 pb-20 bg-slate-100">{children}</main>
         </div>
       );
     }]

    The parameter pattern reads [props.children].  The arguments of the
    outer factory call are evaluated before the call, so the [main] element
    is allocated first. *)
Definition MarketingLayout (props : list (string * JsValue)) : JS JsValue :=
  let children := get_prop "children" props in
  main ← jsx "main" [("className", VString "pt-40 pb-20 bg-slate-100");
                      ("children", children)];
  jsx "div" [("className", VString "bg-slate-100 h-full");
             ("children", main)].

(** The payload of a props object: what the parameter pattern binds. *)
Definition payload (props : list (string * JsValue)) : JsValue :=
  get_prop "children" props.

(** The call the hosting renderer makes for [<MarketingLayout>p</MarketingLayout>]:
    the component applied to a props object that holds only the payload. *)
Definition render (p : JsValue) : JS JsValue :=
  MarketingLayout [("children", p)].

(** ** The element factory as a parameter, and the development build *)

(** The same function body over any element factory.  The JSX of the source
    compiles to calls of [jsx] in a production build and of [jsxDEV] in a
    development build; nothing else of the body depends on the build. *)
Definition MarketingLayout_with
    (factory : string → list (string * JsValue) → JS JsValue)
    (props : list (string * JsValue)) : JS JsValue :=
  let children := get_prop "children" props in
  main ← factory "main" [("className", VString "pt-40 pb-20 bg-slate-100");
                          ("children", children)];
  factory "div" [("className", VString "bg-slate-100 h-full");
                 ("children", main)].

Global Instance Effect_eq_dec : EqDecision Effect.
Proof. solve_decision. Defined.

(** [console.error(msg)]. *)
Definition console_error (msg : string) : JS unit := λ w,
  Normal tt (mkWorld (heap w) (effects w ++ [ConsoleWrite msg])).

(** The key warning of the development factory for a parent of type
    [parent] (its text is abbreviated here). *)
Definition key_warning (parent : string) : string :=
  "Each child in a list should have a unique key prop. Check <"
  +:+ parent +:+ ">.".

(** An element without a key. *)
Definition lacks_key (h : gmap positive HeapObj) (v : JsValue) : bool :=
  match v with
  | VRef l =>
      match h !! l with
      | Some (OElement _ None _) => true
      | _ => false
      end
  | _ => false
  end.

(** The key check looks at a [children] value that is an array: it asks for
    a warning when an item of the array is an element without a key. *)
Definition wants_key_warning (h : gmap positive HeapObj) (children : JsValue)
  : bool :=
  match children with
  | VRef l =>
      match h !! l with
      | Some (OArray items) => existsb (lacks_key h) items
      | _ => false
      end
  | _ => false
  end.

(** The key check of the development build for an element of type [type]:
    it writes the key warning to the console, once: the runtime remembers the
    warnings it has given and does not repeat one.  What it remembers is read
    here from the record of the console writes. *)
Definition validate_child_keys (type : string) (children : JsValue)
  : JS unit := λ w,
  if wants_key_warning (heap w) children
     && negb (bool_decide (ConsoleWrite (key_warning type) ∈ effects w))
  then console_error (key_warning type) w
  else Normal tt w.

(** The element factory of the JSX runtime in a development build: it builds
    the element as [jsx] does, then checks the keys of [props.children]. *)
Definition jsxDEV (type : string) (props : list (string * JsValue))
  : JS JsValue :=
  element ← jsx type props;
  _ ← validate_child_keys type (get_prop "children" props);
  mret element.

(** A factory builds elements when each call returns a reference to a new
    element object with the given type and props, leaves the other objects
    of the store as they are, and may add to the record of effects. *)
Definition builds_elements
    (factory : string → list (string * JsValue) → JS JsValue) : Prop :=
  ∀ type props w, ∃ l out,
    heap w !! l = None
    ∧ factory type props w
      = Normal (VRef l)
               (mkWorld (<[l := OElement type None props]> (heap w))
                        (effects w ++ out)).


(** A factory that fails: every call of it throws. *)
Definition failing_factory (type : string)
    (props : list (string * JsValue)) : JS JsValue :=
  λ w, Throw (VString "factory failed") w.

(** ** Reading a result back *)

(** The element object a value refers to, if it refers to one. *)
Definition element_at (h : gmap positive HeapObj) (v : JsValue)
  : option (string * option string * list (string * JsValue)) :=
  match v with
  | VRef l =>
      match h !! l with
      | Some (OElement ty k ps) => Some (ty, k, ps)
      | _ => None
      end
  | _ => None
  end.

(** The attributes of an element: its props other than [children]. *)
Definition attributes (ps : list (string * JsValue))
  : list (string * JsValue) :=
  filter (λ kv, negb (String.eqb kv.1 "children")) ps.

(** A store-independent picture of a value: the tree of everything that can
    be reached from it. *)
Inductive Tree : Type :=
  | TUndefined
  | TNull
  | TBool (b : bool)
  | TNumber (z : Z)
  | TString (s : string)
  | TElement (type : string) (key : option string)
             (props : list (string * Tree))
  | TArray (items : list Tree).

(** [reify n h v] follows references of [v] in [h] down to depth [n]; it is
    [None] when a reference dangles or lies deeper than [n]. *)
Fixpoint reify (n : nat) (h : gmap positive HeapObj) (v : JsValue)
  : option Tree :=
  match v with
  | VUndefined => Some TUndefined
  | VNull => Some TNull
  | VBool b => Some (TBool b)
  | VNumber z => Some (TNumber z)
  | VString s => Some (TString s)
  | VRef l =>
      match n with
      | O => None
      | S n' =>
          match h !! l with
          | Some (OElement ty k ps) =>
              ts ← mapM (λ kv, t ← reify n' h kv.2; Some (kv.1, t)) ps;
              Some (TElement ty k ts)
          | Some (OArray items) =>
              ts ← mapM (reify n' h) items;
              Some (TArray ts)
          | None => None
          end
      end
  end.

(** The nodes a children value stands for when React mounts it:
    [undefined], [null] and booleans stand for nothing, an array for the
    nodes of its items in order, anything else for itself. *)
Fixpoint child_nodes (t : Tree) : list Tree :=
  match t with
  | TUndefined | TNull | TBool _ => []
  | TArray items => flat_map child_nodes items
  | _ => [t]
  end.

(** The [children] prop of a tree's props, [undefined] when there is none,
    and the child nodes of an element. *)
Fixpoint tree_prop (k : string) (ps : list (string * Tree)) : Tree :=
  match ps with
  | [] => TUndefined
  | (k', t) :: ps' => if String.eqb k k' then t else tree_prop k ps'
  end.

Definition children_of (t : Tree) : list Tree :=
  match t with
  | TElement _ _ ps => child_nodes (tree_prop "children" ps)
  | _ => []
  end.

(** A node that stands for itself. *)
Definition is_single_node (t : Tree) : bool :=
  match t with
  | TNumber _ | TString _ | TElement _ _ _ => true
  | _ => false
  end.

(** The two-level tree around a payload tree: a [div] whose only child is a
    [main] whose only child is the payload. *)
Definition wrapped (t : Tree) : Tree :=
  TElement "div" None
    [("className", TString "bg-slate-100 h-full");
     ("children",
      TElement "main" None
        [("className", TString "pt-40 pb-20 bg-slate-100");
         ("children", t)])].

(** What the component returned, read from the store: the two wrapper
    elements with their attributes, and the content of the inner slot. *)
Record Chrome : Type := mkChrome {
  outer_tag : string;
  outer_attrs : list (string * JsValue);
  inner_tag : string;
  inner_attrs : list (string * JsValue);
  slot : JsValue
}.

Definition chrome_of (h : gmap positive HeapObj) (r : JsValue)
  : option Chrome :=
  '(oty, _, ops) ← element_at h r;
  '(ity, _, ips) ← element_at h (get_prop "children" ops);
  Some (mkChrome oty (attributes ops) ity (attributes ips)
                 (get_prop "children" ips)).

(** ** Presentation directives *)

(** The class names of an element: the white-space separated tokens of its
    [className] attribute. *)
Definition class_list (attrs : list (string * JsValue)) : list string :=
  match get_prop "className" attrs with
  | VString s => String.words s
  | _ => []
  end.

(** The styling engine that resolves class names is not part of the source
    file.  The class names in it follow the utility naming scheme
    [bg-<tone>], [h-full], [pt-<n>], [pb-<n>], where [n] is a step of the
    spacing scale; [directive_of_class] reads a class name by that scheme. *)
Inductive Directive : Type :=
  | Background (tone : string)
  | FullHeight
  | PaddingTop (n : N)
  | PaddingBottom (n : N).

Fixpoint strip_prefix (p s : string) : option string :=
  match p, s with
  | EmptyString, _ => Some s
  | String a p', String b s' =>
      if Ascii.eqb a b then strip_prefix p' s' else None
  | String _ _, EmptyString => None
  end.

Definition digit_of (c : Ascii.ascii) : option N :=
  let n := Ascii.N_of_ascii c in
  if ((48 <=? n) && (n <=? 57))%N then Some (n - 48)%N else None.

Fixpoint parse_digits (acc : N) (s : string) : option N :=
  match s with
  | EmptyString => Some acc
  | String c s' =>
      match digit_of c with
      | Some d => parse_digits (10 * acc + d)%N s'
      | None => None
      end
  end.

Definition parse_step (s : string) : option N :=
  match s with
  | EmptyString => None
  | _ => parse_digits 0%N s
  end.

Definition directive_of_class (c : string) : option Directive :=
  if String.eqb c "h-full" then Some FullHeight
  else match strip_prefix "bg-" c with
  | Some tone => Some (Background tone)
  | None =>
  match strip_prefix "pt-" c with
  | Some n => PaddingTop <$> parse_step n
  | None =>
  match strip_prefix "pb-" c with
  | Some n => PaddingBottom <$> parse_step n
  | None => None
  end end end.

(** The directives of an element; [None] if a class name is not one of the
    scheme. *)
Definition directives (attrs : list (string * JsValue))
  : option (list Directive) :=
  mapM directive_of_class (class_list attrs).

Fixpoint padding_top (ds : list Directive) : option N :=
  match ds with
  | [] => None
  | PaddingTop n :: _ => Some n
  | _ :: ds' => padding_top ds'
  end.

Fixpoint padding_bottom (ds : list Directive) : option N :=
  match ds with
  | [] => None
  | PaddingBottom n :: _ => Some n
  | _ :: ds' => padding_bottom ds'
  end.

Fixpoint background (ds : list Directive) : option string :=
  match ds with
  | [] => None
  | Background tone :: _ => Some tone
  | _ :: ds' => background ds'
  end.

(** ** Sample stores *)

(** An empty store with no effect recorded. *)
Definition empty_world : World := mkWorld ∅ [].

(** A store holding a paragraph element at address 1 and, at address 5, the
    array [["a", 2, <p/>]]; one message was already written to the console. *)
Definition sample_world : World :=
  mkWorld (<[5%positive := OArray [VString "a"; VNumber 2; VRef 1%positive]]>
             (<[1%positive := OElement "p" None []]> ∅))
          [ConsoleWrite "ready"].

(** ** Well-formed stores *)

(** A value is in a store when it is a primitive or refers to an object of
    the store; a store is closed when every value held by one of its objects
    is in it (no reference dangles). *)
Definition value_in (h : gmap positive HeapObj) (v : JsValue) : bool :=
  match v with
  | VRef l => match h !! l with Some _ => true | None => false end
  | _ => true
  end.

Definition obj_values (o : HeapObj) : list JsValue :=
  match o with
  | OElement _ _ ps => map snd ps
  | OArray items => items
  end.

Definition obj_closed (h : gmap positive HeapObj) (o : HeapObj) : bool :=
  forallb (value_in h) (obj_values o).

Definition store_closed (h : gmap positive HeapObj) : Prop :=
  map_Forall (λ _ o, obj_closed h o = true) h.

(** ** The store after a call *)

(** The address and the object of the inner and of the outer element that a
    call on [props] allocates in [w]. *)
Definition inner_loc (w : World) : loc := fresh (dom (heap w)).

Definition inner_obj (props : list (string * JsValue)) : HeapObj :=
  OElement "main" None
    [("className", VString "pt-40 pb-20 bg-slate-100");
     ("children", payload props)].

Definition outer_loc (props : list (string * JsValue)) (w : World) : loc :=
  fresh (dom (<[inner_loc w := inner_obj props]> (heap w))).

Definition outer_obj (w : World) : HeapObj :=
  OElement "div" None
    [("className", VString "bg-slate-100 h-full");
     ("children", VRef (inner_loc w))].

Definition heap_after (props : list (string * JsValue)) (w : World)
  : gmap positive HeapObj :=
  <[outer_loc props w := outer_obj w]>
    (<[inner_loc w := inner_obj props]> (heap w)).


(** ** Basic facts *)

Lemma MarketingLayout_run props w :
  MarketingLayout props w
  = Normal (VRef (outer_loc props w))
           (mkWorld (heap_after props w) (effects w)).
Proof. reflexivity. Qed.

Lemma inner_loc_fresh w : heap w !! inner_loc w = None.
Proof. apply not_elem_of_dom. unfold inner_loc. apply is_fresh. Qed.

Lemma outer_loc_fresh_inner props w :
  <[inner_loc w := inner_obj props]> (heap w) !! outer_loc props w = None.
Proof. apply not_elem_of_dom. unfold outer_loc. apply is_fresh. Qed.

Lemma outer_loc_neq_inner props w : outer_loc props w ≠ inner_loc w.
Proof.
  intros E. pose proof (outer_loc_fresh_inner props w) as H.
  rewrite E, lookup_insert_eq in H. discriminate.
Qed.

Lemma outer_loc_fresh props w : heap w !! outer_loc props w = None.
Proof.
  pose proof (outer_loc_fresh_inner props w) as H.
  rewrite lookup_insert_ne in H; [done | ].
  intros E. by apply (outer_loc_neq_inner props w).
Qed.

Lemma heap_after_outer props w :
  heap_after props w !! outer_loc props w = Some (outer_obj w).
Proof. apply lookup_insert_eq. Qed.

Lemma heap_after_inner props w :
  heap_after props w !! inner_loc w = Some (inner_obj props).
Proof.
  unfold heap_after. rewrite lookup_insert_ne.
  - apply lookup_insert_eq.
  - apply outer_loc_neq_inner.
Qed.

(** Every object of the store before the call is in the store after it,
    unchanged. *)
Lemma heap_after_frame props w : heap w ⊆ heap_after props w.
Proof.
  unfold heap_after.
  etrans; [ | apply insert_subseteq, outer_loc_fresh_inner ].
  apply insert_subseteq, inner_loc_fresh.
Qed.

Lemma heap_after_old props w l o :
  heap w !! l = Some o → heap_after props w !! l = Some o.
Proof.
  intros H. eapply lookup_weaken; [exact H | apply heap_after_frame].
Qed.

(** The objects the call adds are the two wrapper elements, no more. *)
Lemma heap_after_new props w l :
  heap w !! l = None → is_Some (heap_after props w !! l) →
  l = inner_loc w ∨ l = outer_loc props w.
Proof.
  intros Hold [o Hnew]. unfold heap_after in Hnew.
  destruct (decide (l = outer_loc props w)) as [ | Ho]; [by right | ].
  rewrite lookup_insert_ne in Hnew by done.
  destruct (decide (l = inner_loc w)) as [ | Hi]; [by left | ].
  rewrite lookup_insert_ne in Hnew by done. congruence.
Qed.

Lemma chrome_of_heap_after props w :
  chrome_of (heap_after props w) (VRef (outer_loc props w))
  = Some (mkChrome "div" [("className", VString "bg-slate-100 h-full")]
                   "main" [("className", VString "pt-40 pb-20 bg-slate-100")]
                   (payload props)).
Proof.
  unfold chrome_of, element_at. rewrite heap_after_outer. simpl.
  rewrite heap_after_inner. reflexivity.
Qed.

(** *** Reading back is stable under allocation *)

Lemma mapM_weaken {A B} (f g : A → option B) (l : list A) (k : list B) :
  (∀ x y, f x = Some y → g x = Some y) →
  mapM f l = Some k → mapM g l = Some k.
Proof.
  intros Hfg. rewrite !mapM_Some. intros H.
  eapply Forall2_impl; [exact H | exact Hfg].
Qed.

Lemma reify_mono n (h h' : gmap positive HeapObj) v t :
  h ⊆ h' → reify n h v = Some t → reify n h' v = Some t.
Proof.
  intros Hsub. revert v t. induction n as [ | n IH]; intros v t.
  - destruct v; simpl; done.
  - destruct v as [ | | b | z | s | l]; simpl; try done.
    destruct (h !! l) as [o | ] eqn:Hl; [ | done].
    rewrite (lookup_weaken _ _ _ _ Hl Hsub).
    destruct o as [ty k ps | items]; intros H.
    + apply bind_Some in H as (ts & Hts & Ht). apply bind_Some.
      exists ts. split; [ | done].
      revert Hts. apply mapM_weaken. intros [k' x] y Hx. simpl in *.
      apply bind_Some in Hx as (t' & Ht' & Hy). apply bind_Some.
      exists t'. split; [by apply IH | done].
    + apply bind_Some in H as (ts & Hts & Ht). apply bind_Some.
      exists ts. split; [ | done].
      revert Hts. apply mapM_weaken. intros x y. apply IH.
Qed.

Lemma reify_string n (h : gmap positive HeapObj) s :
  reify n h (VString s) = Some (TString s).
Proof. by destruct n. Qed.

(** Reading the returned reference gives the two-level tree around the
    payload's tree. *)
Lemma reify_heap_after props w n t :
  reify n (heap w) (payload props) = Some t →
  reify (S (S n)) (heap_after props w) (VRef (outer_loc props w))
  = Some (wrapped t).
Proof.
  intros Hp.
  apply (reify_mono _ _ _ _ _ (heap_after_frame props w)) in Hp.
  cbn [reify]. rewrite heap_after_outer. cbn [outer_obj mapM fst snd].
  cbn [reify]. rewrite heap_after_inner. cbn [inner_obj mapM fst snd].
  rewrite reify_string, Hp. reflexivity.
Qed.

(** ** The structure of the result *)

(** C1.  For every props object and store, the component returns a reference
    to a new [div] element whose [children] is a reference to a new [main]
    element whose [children] is the payload itself.  Every object of the
    store before the call is unchanged after it, so whenever the payload can
    be read back as a tree [t], it still reads back as [t], and the result
    reads back as the two-level tree around [t]: the outer element has
    exactly one child, the inner element, and the inner element's children
    are the nodes of the payload. *)
Theorem layout_two_level_structure (props : list (string * JsValue))
    (w : World) :
  ∃ r w',
    MarketingLayout props w = Normal r w'
    ∧ (∃ c, chrome_of (heap w') r = Some c ∧ slot c = payload props)
    ∧ (∀ l o, heap w !! l = Some o → heap w' !! l = Some o)
    ∧ ∀ n t, reify n (heap w) (payload props) = Some t →
        reify n (heap w') (payload props) = Some t
        ∧ ∃ outer inner,
            reify (S (S n)) (heap w') r = Some outer
            ∧ outer = wrapped t
            ∧ children_of outer = [inner]
            ∧ children_of inner = child_nodes t.
Proof.
  exists (VRef (outer_loc props w)),
         (mkWorld (heap_after props w) (effects w)).
  split; [apply MarketingLayout_run | ]. cbn [heap].
  split; [ | split].
  - eexists. split; [apply chrome_of_heap_after | reflexivity].
  - apply heap_after_old.
  - intros n t Hp. split.
    + exact (reify_mono _ _ _ _ _ (heap_after_frame props w) Hp).
    + eexists _, _. split; [by apply reify_heap_after | ].
      split; [reflexivity | ]. split; reflexivity.
Qed.

Lemma layout_two_level_structure_witness :
  ∃ r w',
    MarketingLayout [("children", VRef 5%positive)] sample_world = Normal r w'
    ∧ reify 4 (heap w') r
      = Some (wrapped (TArray [TString "a"; TNumber 2; TElement "p" None []])).
Proof.
  destruct (layout_two_level_structure
              [("children", VRef 5%positive)] sample_world)
    as (r & w' & Hrun & _ & _ & Hread).
  exists r, w'. split; [exact Hrun | ].
  destruct (Hread 2 (TArray [TString "a"; TNumber 2; TElement "p" None []]))
    as (_ & outer & inner & Hr & Ho & _).
  - vm_compute. reflexivity.
  - rewrite Hr, Ho. reflexivity.
Defined.

(** C2.  For every props object and store, the attributes of the outer
    element are exactly the class attribute with the directives "background
    slate-100" and "full height", and those of the inner element are exactly
    the class attribute with the directives "top padding 40", "bottom padding
    20" and "background slate-100".  The two sets are constants: the payload
    does not occur in them. *)
Theorem layout_directives_constant (props : list (string * JsValue))
    (w : World) :
  ∃ r w' c,
    MarketingLayout props w = Normal r w'
    ∧ chrome_of (heap w') r = Some c
    ∧ outer_attrs c = [("className", VString "bg-slate-100 h-full")]
    ∧ inner_attrs c = [("className", VString "pt-40 pb-20 bg-slate-100")]
    ∧ directives (outer_attrs c)
      = Some [Background "slate-100"; FullHeight]
    ∧ directives (inner_attrs c)
      = Some [PaddingTop 40; PaddingBottom 20; Background "slate-100"].
Proof.
  eexists _, _, _. split; [apply MarketingLayout_run | ]. cbn [heap].
  split; [apply chrome_of_heap_after | ].
  repeat split; reflexivity.
Qed.

(** ** Purity and totality *)

(** *** The component over any element factory *)










Lemma jsxDEV_builds_elements : builds_elements jsxDEV.
Proof.
  intros type props w. unfold jsxDEV, mbind, JS_bind, jsx, alloc.
  unfold validate_child_keys. cbn [heap effects].
  destruct (_ && _).
  - exists (fresh (dom (heap w))), [ConsoleWrite (key_warning type)].
    split; [apply not_elem_of_dom, is_fresh | reflexivity].
  - exists (fresh (dom (heap w))), [].
    split; [apply not_elem_of_dom, is_fresh | ].
    rewrite app_nil_r. reflexivity.
Qed.





(** C4.  On every props object in every store the component returns
    normally, and what it returns is the output tree: a reference to the
    [div] element around the [main] element around the payload.  This holds
    with a payload, with [children: undefined], and with no [children]
    property at all, where the result reads back as the two-level tree around
    nothing.  The call never completes by throwing; the body has no failing
    step of its own: over any element factory whatever, a call throws only
    when one of its two factory calls throws. *)
Theorem layout_total (props : list (string * JsValue)) (w : World) :
  (∃ r w',
      MarketingLayout props w = Normal r w'
      ∧ chrome_of (heap w') r
        = Some (mkChrome "div" [("className", VString "bg-slate-100 h-full")]
                  "main" [("className", VString "pt-40 pb-20 bg-slate-100")]
                  (payload props)))
  ∧ (∀ e w', MarketingLayout props w ≠ Throw e w')
  ∧ (∃ r w', render VUndefined w = Normal r w'
             ∧ reify 2 (heap w') r = Some (wrapped TUndefined))
  ∧ (∃ r w', MarketingLayout [] w = Normal r w'
             ∧ reify 2 (heap w') r = Some (wrapped TUndefined))
  ∧ (∀ (factory : string → list (string * JsValue) → JS JsValue) e w',
        MarketingLayout_with factory props w = Throw e w' →
        factory "main" [("className", VString "pt-40 pb-20 bg-slate-100");
                        ("children", payload props)] w
        = Throw e w'
        ∨ ∃ main wm,
            factory "main"
              [("className", VString "pt-40 pb-20 bg-slate-100");
               ("children", payload props)] w
            = Normal main wm
            ∧ factory "div" [("className", VString "bg-slate-100 h-full");
                             ("children", main)] wm
              = Throw e w').
Proof.
  split; [ | split; [ | split; [ | split]]].
  - eexists _, _. split; [apply MarketingLayout_run | ].
    apply chrome_of_heap_after.
  - intros e w'. rewrite MarketingLayout_run. discriminate.
  - eexists _, _. split; [apply MarketingLayout_run | ].
    by apply reify_heap_after.
  - eexists _, _. split; [apply MarketingLayout_run | ].
    by apply reify_heap_after.
  - intros factory e w'. unfold MarketingLayout_with, mbind, JS_bind, payload.
    destruct (factory "main" _ w) as [main wm | e1 w1] eqn:Hmain.
    + intros Hdiv. right. by exists main, wm.
    + intros [= -> ->]. by left.
Qed.

Lemma layout_total_witness :
  (∃ r w', render VUndefined empty_world = Normal r w'
           ∧ reify 2 (heap w') r = Some (wrapped TUndefined))
  ∧ (∃ e w',
        failing_factory "main"
          [("className", VString "pt-40 pb-20 bg-slate-100");
           ("children", VUndefined)] empty_world
        = Throw e w').
Proof.
  destruct (layout_total [] empty_world)
    as (_ & _ & Habsent & _ & Hthrow).
  split; [exact Habsent | ].
  destruct (Hthrow failing_factory (VString "factory failed") empty_world)
    as [H | (m & wm & H & _)].
  - reflexivity.
  - eexists _, _. exact H.
  - discriminate H.
Defined.

(** C5.  With an absent payload (a props object whose [children] reads as
    [undefined]: [children: undefined], or no [children] property) the result is still the [div] around the [main], each with its
    class attribute; the inner slot holds [undefined], so the inner element
    has no child node, and the outer element has the inner element as its
    one child. *)
Theorem layout_absent_payload (props : list (string * JsValue)) (w : World) :
  payload props = VUndefined →
  ∃ r w' inner,
    MarketingLayout props w = Normal r w'
    ∧ chrome_of (heap w') r
      = Some (mkChrome "div" [("className", VString "bg-slate-100 h-full")]
                "main" [("className", VString "pt-40 pb-20 bg-slate-100")]
                VUndefined)
    ∧ reify 2 (heap w') r = Some (wrapped TUndefined)
    ∧ children_of (wrapped TUndefined) = [inner]
    ∧ children_of inner = [].
Proof.
  intros Hp.
  eexists _, _, _. split; [apply MarketingLayout_run | ]. cbn [heap].
  rewrite chrome_of_heap_after, Hp. split; [reflexivity | ].
  split; [ | split; reflexivity].
  apply reify_heap_after. by rewrite Hp.
Qed.

Lemma layout_absent_payload_witness :
  ∃ r w',
    render VUndefined empty_world = Normal r w'
    ∧ reify 2 (heap w') r = Some (wrapped TUndefined).
Proof.
  destruct (layout_absent_payload [("children", VUndefined)] empty_world)
    as (r & w' & inner & Hrun & _ & Hread & _).
  - reflexivity.
  - exists r, w'. split; [exact Hrun | exact Hread].
Defined.

(** C10.  For every props object and store, the outer element has type
    [div] and class attribute "bg-slate-100 h-full", the inner element has
    type [main] and class attribute "pt-40 pb-20 bg-slate-100"; neither has a
    key. *)
Theorem layout_literal_tags_and_classes (props : list (string * JsValue))
    (w : World) :
  ∃ r w' inner_ref,
    MarketingLayout props w = Normal r w'
    ∧ element_at (heap w') r
      = Some ("div", None,
              [("className", VString "bg-slate-100 h-full");
               ("children", inner_ref)])
    ∧ element_at (heap w') inner_ref
      = Some ("main", None,
              [("className", VString "pt-40 pb-20 bg-slate-100");
               ("children", payload props)]).
Proof.
  eexists _, _, _. split; [apply MarketingLayout_run | ]. cbn [heap].
  unfold element_at. rewrite heap_after_outer. split; [reflexivity | ].
  cbn [outer_obj]. rewrite heap_after_inner. reflexivity.
Qed.

(** ** Sequences, aliasing and the frame *)

Lemma child_nodes_single t : is_single_node t = true → child_nodes t = [t].
Proof. by destruct t. Qed.

Lemma child_nodes_array_singles ts :
  forallb is_single_node ts = true → child_nodes (TArray ts) = ts.
Proof.
  cbn [child_nodes]. induction ts as [ | t ts IH]; [done | ].
  cbn [forallb flat_map]. intros [Ht Hts]%andb_prop.
  rewrite (child_nodes_single t Ht), (IH Hts). reflexivity.
Qed.

Lemma reify_array n (h : gmap positive HeapObj) a items ts :
  h !! a = Some (OArray items) →
  mapM (reify n h) items = Some ts →
  reify (S n) h (VRef a) = Some (TArray ts).
Proof. intros Ha Hts. cbn [reify]. rewrite Ha, Hts. reflexivity. Qed.

(** C6.  When the payload is a reference to an array, the inner slot holds
    that same reference, the array still has the same items in the same
    order, and the result reads back as the two-level tree around the array
    of the items' trees, in order.  When every item is a node of its own (an
    element, a string or a number), the child nodes of the inner element are
    exactly the items, in order. *)
Theorem layout_sequence_payload (w : World) (a : loc)
    (items : list JsValue) (n : nat) (ts : list Tree) :
  heap w !! a = Some (OArray items) →
  mapM (reify n (heap w)) items = Some ts →
  ∃ r w' c,
    render (VRef a) w = Normal r w'
    ∧ chrome_of (heap w') r = Some c
    ∧ slot c = VRef a
    ∧ heap w' !! a = Some (OArray items)
    ∧ reify (S (S (S n))) (heap w') r = Some (wrapped (TArray ts))
    ∧ (forallb is_single_node ts = true →
       ∃ inner, children_of (wrapped (TArray ts)) = [inner]
                ∧ children_of inner = ts).
Proof.
  intros Ha Hts. unfold render.
  eexists _, _, _. split; [apply MarketingLayout_run | ]. cbn [heap].
  split; [apply chrome_of_heap_after | ]. split; [reflexivity | ].
  split; [by apply heap_after_old | ]. split.
  - apply reify_heap_after. by apply (reify_array _ _ _ items).
  - intros Hsingle. eexists. split; [reflexivity | ].
    cbn [children_of tree_prop String.eqb Ascii.eqb Bool.eqb].
    by apply child_nodes_array_singles.
Qed.

Lemma layout_sequence_payload_witness :
  ∃ r w' inner,
    render (VRef 5%positive) sample_world = Normal r w'
    ∧ reify 4 (heap w') r
      = Some (wrapped (TArray [TString "a"; TNumber 2; TElement "p" None []]))
    ∧ children_of inner = [TString "a"; TNumber 2; TElement "p" None []].
Proof.
  destruct (layout_sequence_payload sample_world 5%positive
              [VString "a"; VNumber 2; VRef 1%positive] 1
              [TString "a"; TNumber 2; TElement "p" None []])
    as (r & w' & c & Hrun & _ & _ & _ & Hread & Hnodes).
  - vm_compute. reflexivity.
  - vm_compute. reflexivity.
  - destruct Hnodes as (inner & _ & Hinner); [reflexivity | ].
    exists r, w', inner. split; [exact Hrun | ]. split; [exact Hread | ].
    exact Hinner.
Defined.

(** C7.  A call leaves every object that was in the store before it exactly
    as it was, so the payload and everything reachable from it read the same
    before and after.  The inner slot holds the payload value itself (for a
    reference: the same address, not the address of a copy), and the only
    objects added to the store are the two wrapper elements, of which only
    the inner one refers to the payload. *)
Theorem layout_payload_not_mutated (props : list (string * JsValue))
    (w : World) :
  ∃ r w' c,
    MarketingLayout props w = Normal r w'
    ∧ chrome_of (heap w') r = Some c
    ∧ slot c = payload props
    ∧ (∀ l o, heap w !! l = Some o → heap w' !! l = Some o)
    ∧ (∀ n t, reify n (heap w) (payload props) = Some t →
              reify n (heap w') (payload props) = Some t)
    ∧ (∀ l, heap w !! l = None → is_Some (heap w' !! l) →
            element_at (heap w') (VRef l)
            = Some (inner_tag c, None,
                    (inner_attrs c ++ [("children", payload props)])%list)
            ∨ (r = VRef l
               ∧ ∃ li, heap w !! li = None
                       ∧ element_at (heap w') r
                         = Some (outer_tag c, None,
                                 (outer_attrs c
                                    ++ [("children", VRef li)])%list))).
Proof.
  eexists _, _, _. split; [apply MarketingLayout_run | ]. cbn [heap].
  split; [apply chrome_of_heap_after | ]. split; [reflexivity | ].
  split; [apply heap_after_old | ]. split.
  - intros n t. apply reify_mono, heap_after_frame.
  - intros l Hold Hnew.
    destruct (heap_after_new props w l Hold Hnew) as [-> | ->].
    + left. unfold element_at. rewrite heap_after_inner. reflexivity.
    + right. split; [reflexivity | ]. exists (inner_loc w).
      split; [apply inner_loc_fresh | ].
      unfold element_at. rewrite heap_after_outer. reflexivity.
Qed.

Lemma layout_payload_not_mutated_witness :
  ∃ r w',
    render (VRef 5%positive) sample_world = Normal r w'
    ∧ heap w' !! 5%positive
      = Some (OArray [VString "a"; VNumber 2; VRef 1%positive])
    ∧ reify 2 (heap w') (VRef 5%positive)
      = reify 2 (heap sample_world) (VRef 5%positive).
Proof.
  destruct (layout_payload_not_mutated
              [("children", VRef 5%positive)] sample_world)
    as (r & w' & c & Hrun & _ & _ & Hframe & Hread & _).
  exists r, w'. split; [exact Hrun | ]. split.
  - apply Hframe. vm_compute. reflexivity.
  - change (VRef 5%positive) with (payload [("children", VRef 5%positive)]).
    rewrite (Hread 2 (TArray [TString "a"; TNumber 2; TElement "p" None []]));
      vm_compute; reflexivity.
Defined.

(** ** The component reads nothing but [children] *)

Lemma MarketingLayout_payload props1 props2 :
  payload props1 = payload props2 →
  MarketingLayout props1 = MarketingLayout props2.
Proof. unfold MarketingLayout, payload. by intros ->. Qed.

(** C9.  Two props objects with the same [children] give the same
    computation, whatever other properties they carry: the same completion
    in the same store, and in any two stores the same wrapper elements
    around the same slot value.  The effects recorded so far do not influence
    the returned reference or the store. *)
Theorem layout_depends_only_on_children (props1 props2 : list (string * JsValue))
    (w1 w2 : World) :
  payload props1 = payload props2 →
  MarketingLayout props1 w1 = MarketingLayout props2 w1
  ∧ ∃ r1 w1' r2 w2' c,
      MarketingLayout props1 w1 = Normal r1 w1'
      ∧ MarketingLayout props2 w2 = Normal r2 w2'
      ∧ chrome_of (heap w1') r1 = Some c
      ∧ chrome_of (heap w2') r2 = Some c
      ∧ (heap w1 = heap w2 → r1 = r2 ∧ heap w1' = heap w2').
Proof.
  intros Hp. split; [by rewrite (MarketingLayout_payload _ _ Hp) | ].
  rewrite (MarketingLayout_payload _ _ Hp).
  eexists _, _, _, _, _.
  split; [apply MarketingLayout_run | ].
  split; [apply MarketingLayout_run | ]. cbn [heap].
  split; [apply chrome_of_heap_after | ].
  split; [apply chrome_of_heap_after | ].
  intros Hh. unfold heap_after, outer_loc, outer_obj, inner_loc.
  rewrite Hh. split; reflexivity.
Qed.

Lemma layout_depends_only_on_children_witness :
  MarketingLayout [("theme", VString "dark"); ("children", VString "hello");
                   ("fluid", VBool true)] sample_world
  = MarketingLayout [("children", VString "hello")] sample_world.
Proof.
  apply (layout_depends_only_on_children
           [("theme", VString "dark"); ("children", VString "hello");
            ("fluid", VBool true)]
           [("children", VString "hello")] sample_world empty_world).
  reflexivity.
Defined.

(** ** Padding and background *)

Section Spacing.

(** The length the styling engine gives to step [n] of its spacing scale;
    all that is used of it is that a larger step is a longer length. *)
Variable spacing : N → Z.
Hypothesis spacing_mono : ∀ a b, (a < b)%N → (spacing a < spacing b)%Z.

(** C8.  In every result the inner element has a top padding step and a
    bottom padding step, the top one is twice the bottom one (40 and 20),
    so the top padding is strictly longer than the bottom padding on every
    increasing spacing scale; and the inner element's background tone is
    the outer element's background tone. *)
Theorem layout_padding_relation (props : list (string * JsValue))
    (w : World) :
  ∃ r w' c d_inner d_outer top bottom tone,
    MarketingLayout props w = Normal r w'
    ∧ chrome_of (heap w') r = Some c
    ∧ directives (inner_attrs c) = Some d_inner
    ∧ directives (outer_attrs c) = Some d_outer
    ∧ padding_top d_inner = Some top
    ∧ padding_bottom d_inner = Some bottom
    ∧ (bottom < top)%N
    ∧ top = (2 * bottom)%N
    ∧ (spacing bottom < spacing top)%Z
    ∧ background d_inner = Some tone
    ∧ background d_outer = Some tone.
Proof.
  exists (VRef (outer_loc props w)),
         (mkWorld (heap_after props w) (effects w)),
         (mkChrome "div" [("className", VString "bg-slate-100 h-full")]
            "main" [("className", VString "pt-40 pb-20 bg-slate-100")]
            (payload props)),
         [PaddingTop 40; PaddingBottom 20; Background "slate-100"],
         [Background "slate-100"; FullHeight],
         40%N, 20%N, "slate-100".
  split; [apply MarketingLayout_run | ]. cbn [heap].
  split; [apply chrome_of_heap_after | ].
  do 4 (split; [reflexivity | ]).
  split; [lia | ]. split; [reflexivity | ].
  split; [apply spacing_mono; lia | ]. split; reflexivity.
Qed.

End Spacing.

Lemma layout_padding_relation_witness :
  (∀ a b, (a < b)%N → (4 * Z.of_N a < 4 * Z.of_N b)%Z)
  ∧ ∃ r w' top bottom,
      render (VString "hello") empty_world = Normal r w'
      ∧ (4 * Z.of_N bottom < 4 * Z.of_N top)%Z
      ∧ top = (2 * bottom)%N.
Proof.
  split; [lia | ].
  destruct (layout_padding_relation (λ n, (4 * Z.of_N n)%Z)
              ltac:(simpl; lia) [("children", VString "hello")] empty_world)
    as (r & w' & c & d_inner & d_outer & top & bottom & tone
        & Hrun & _ & _ & _ & _ & _ & _ & Htwice & Hlt & _).
  exists r, w', top, bottom. split; [exact Hrun | ]. split; [exact Hlt | ].
  exact Htwice.
Defined.

(** ** Further properties of the component *)

Lemma lookup_Some_None_ne (h : gmap positive HeapObj) a b o :
  h !! a = Some o → h !! b = None → a ≠ b.
Proof. intros Ha Hb ->. congruence. Qed.

(** Every call builds its own two elements.  Two calls in a row, on any two
    props objects, return references to four different new objects, none of
    which was in the store before the first call; the second call leaves the
    elements of the first as they were.  Nothing is cached or reused from one
    call to the next. *)
Theorem layout_fresh_elements (props1 props2 : list (string * JsValue))
    (w : World) :
  ∃ o1 i1 w1 o2 i2 w2,
    MarketingLayout props1 w = Normal (VRef o1) w1
    ∧ MarketingLayout props2 w1 = Normal (VRef o2) w2
    ∧ element_at (heap w2) (VRef o1)
      = Some ("div", None,
              [("className", VString "bg-slate-100 h-full");
               ("children", VRef i1)])
    ∧ element_at (heap w2) (VRef i1)
      = Some ("main", None,
              [("className", VString "pt-40 pb-20 bg-slate-100");
               ("children", payload props1)])
    ∧ element_at (heap w2) (VRef o2)
      = Some ("div", None,
              [("className", VString "bg-slate-100 h-full");
               ("children", VRef i2)])
    ∧ element_at (heap w2) (VRef i2)
      = Some ("main", None,
              [("className", VString "pt-40 pb-20 bg-slate-100");
               ("children", payload props2)])
    ∧ NoDup [o1; i1; o2; i2]
    ∧ Forall (λ l, heap w !! l = None) [o1; i1; o2; i2].
Proof.
  set (w1 := mkWorld (heap_after props1 w) (effects w)).
  exists (outer_loc props1 w), (inner_loc w), w1,
         (outer_loc props2 w1), (inner_loc w1),
         (mkWorld (heap_after props2 w1) (effects w1)).
  pose proof (heap_after_outer props1 w) as Ho1.
  pose proof (heap_after_inner props1 w) as Hi1.
  pose proof (inner_loc_fresh w1) as Hi2.
  pose proof (outer_loc_fresh props2 w1) as Ho2.
  change (heap w1) with (heap_after props1 w) in Hi2, Ho2.
  split; [apply MarketingLayout_run | ].
  split; [apply MarketingLayout_run | ]. cbn [heap].
  unfold element_at.
  rewrite (heap_after_old props2 w1 _ _ Ho1), (heap_after_old props2 w1 _ _ Hi1).
  rewrite heap_after_outer, heap_after_inner.
  do 4 (split; [reflexivity | ]). split.
  - rewrite !NoDup_cons, !not_elem_of_cons.
    split; [split; [ | split; [ | split]] | ].
    + apply outer_loc_neq_inner.
    + apply (lookup_Some_None_ne _ _ _ _ Ho1 Ho2).
    + apply (lookup_Some_None_ne _ _ _ _ Ho1 Hi2).
    + apply not_elem_of_nil.
    + split; [split; [ | split] | ].
      * apply (lookup_Some_None_ne _ _ _ _ Hi1 Ho2).
      * apply (lookup_Some_None_ne _ _ _ _ Hi1 Hi2).
      * apply not_elem_of_nil.
      * split; [split | ].
        -- apply (outer_loc_neq_inner props2 w1).
        -- apply not_elem_of_nil.
        -- split; [apply not_elem_of_nil | apply NoDup_nil_2].
  - repeat constructor.
    + apply outer_loc_fresh.
    + apply inner_loc_fresh.
    + destruct (heap w !! outer_loc props2 w1) as [o | ] eqn:E; [ | done].
      apply (heap_after_old props1 w) in E. congruence.
    + destruct (heap w !! inner_loc w1) as [o | ] eqn:E; [ | done].
      apply (heap_after_old props1 w) in E. congruence.
Qed.

(** The layout composes with itself.  When the payload reads back as a tree
    [t], calling the layout and then calling it again on the element it
    returned gives an element that reads back, four levels deeper, as the
    two-level tree around the two-level tree around [t]; the element of the
    first call still reads back as before. *)
Theorem layout_nested (props : list (string * JsValue)) (w : World)
    (n : nat) (t : Tree) :
  reify n (heap w) (payload props) = Some t →
  ∃ r1 r2 w2,
    (r ← MarketingLayout props; render r) w = Normal r2 w2
    ∧ (∃ w1, MarketingLayout props w = Normal r1 w1)
    ∧ reify (S (S n)) (heap w2) r1 = Some (wrapped t)
    ∧ reify (S (S (S (S n)))) (heap w2) r2 = Some (wrapped (wrapped t)).
Proof.
  intros Hp.
  set (w1 := mkWorld (heap_after props w) (effects w)).
  set (r1 := VRef (outer_loc props w)).
  pose proof (reify_heap_after props w n t Hp) as H1.
  exists r1, (VRef (outer_loc [("children", r1)] w1)),
         (mkWorld (heap_after [("children", r1)] w1) (effects w1)).
  split; [reflexivity | ]. split; [by exists w1 | ]. cbn [heap]. split.
  - eapply reify_mono; [apply heap_after_frame | exact H1].
  - apply (reify_heap_after [("children", r1)] w1). exact H1.
Qed.

Lemma layout_nested_witness :
  ∃ r2 w2,
    (r ← render (VRef 5%positive); render r) sample_world = Normal r2 w2
    ∧ reify 6 (heap w2) r2
      = Some (wrapped (wrapped
                (TArray [TString "a"; TNumber 2; TElement "p" None []]))).
Proof.
  destruct (layout_nested [("children", VRef 5%positive)] sample_world 2
              (TArray [TString "a"; TNumber 2; TElement "p" None []]))
    as (r1 & r2 & w2 & Hrun & _ & _ & Hread).
  - vm_compute. reflexivity.
  - exists r2, w2. split; [exact Hrun | exact Hread].
Defined.

(** *** Reading back, both ways *)

Lemma mapM_ext_Forall {A B} (f g : A → option B) (l : list A) :
  Forall (λ x, f x = g x) l → mapM f l = mapM g l.
Proof.
  induction 1 as [ | x l Hx _ IH]; [done | ].
  cbn [mapM]. by rewrite Hx, IH.
Qed.

Lemma forallb_Forall_true {A} (p : A → bool) (l : list A) :
  forallb p l = true → Forall (λ x, p x = true) l.
Proof.
  induction l as [ | x l IH]; [constructor | ]. cbn [forallb].
  intros [Hx Hl]%andb_prop. constructor; [done | by apply IH].
Qed.

(** In a closed store, what is read from a value of the store does not
    depend on objects allocated later. *)
Lemma reify_closed_ext n (h h' : gmap positive HeapObj) v :
  store_closed h → h ⊆ h' → value_in h v = true →
  reify n h' v = reify n h v.
Proof.
  intros Hclosed Hsub. revert v. induction n as [ | n IH]; intros v Hv.
  - by destruct v.
  - destruct v as [ | | | | | l]; try done. cbn [value_in] in Hv.
    cbn [reify]. destruct (h !! l) as [o | ] eqn:Hl; [ | done].
    rewrite (lookup_weaken _ _ _ _ Hl Hsub).
    pose proof (forallb_Forall_true _ _ (Hclosed l o Hl)) as Hvals.
    destruct o as [ty k ps | items]; cbn [obj_values] in Hvals.
    + rewrite (mapM_ext_Forall
                 (λ kv, t ← reify n h' kv.2; Some (kv.1, t))
                 (λ kv, t ← reify n h kv.2; Some (kv.1, t)) ps); [done | ].
      apply Forall_fmap in Hvals. eapply Forall_impl; [exact Hvals | ].
      intros [k' x] Hx. cbn in *. by rewrite (IH x Hx).
    + rewrite (mapM_ext_Forall (reify n h') (reify n h) items); [done | ].
      eapply Forall_impl; [exact Hvals | ]. intros x Hx. by apply IH.
Qed.

(** From a closed store and a payload that is in it, the returned element
    reads back at depth [n + 2] exactly as the payload read back at depth [n]
    before the call, wrapped in the two levels: as the two-level tree around
    the payload's tree when the payload can be read, and not at all when it
    cannot.  At depth 0 or 1 the returned element cannot be read: it is never
    less than two levels deep. *)
Theorem layout_read_back_exact (props : list (string * JsValue))
    (w : World) :
  store_closed (heap w) →
  value_in (heap w) (payload props) = true →
  ∃ r w',
    MarketingLayout props w = Normal r w'
    ∧ (∀ n, reify (S (S n)) (heap w') r
            = wrapped <$> reify n (heap w) (payload props))
    ∧ reify 1 (heap w') r = None
    ∧ reify 0 (heap w') r = None.
Proof.
  intros Hclosed Hp.
  exists (VRef (outer_loc props w)),
         (mkWorld (heap_after props w) (effects w)).
  split; [apply MarketingLayout_run | ]. cbn [heap].
  split; [ | split; [ | reflexivity]].
  - intros n. cbn [reify]. rewrite heap_after_outer.
    cbn [outer_obj mapM fst snd]. cbn [reify]. rewrite heap_after_inner.
    cbn [inner_obj mapM fst snd]. rewrite reify_string.
    rewrite (reify_closed_ext n _ _ _ Hclosed (heap_after_frame props w) Hp).
    by destruct (reify n (heap w) (payload props)).
  - cbn [reify]. rewrite heap_after_outer. reflexivity.
Qed.

Lemma layout_read_back_exact_witness :
  ∃ r w',
    render (VRef 5%positive) sample_world = Normal r w'
    ∧ reify 3 (heap w') r = None
    ∧ reify 4 (heap w') r
      = Some (wrapped (TArray [TString "a"; TNumber 2; TElement "p" None []])).
Proof.
  destruct (layout_read_back_exact
              [("children", VRef 5%positive)] sample_world)
    as (r & w' & Hrun & Hread & _).
  - unfold store_closed. apply (bool_decide_unpack _). vm_compute. exact I.
  - vm_compute. reflexivity.
  - exists r, w'. split; [exact Hrun | ].
    rewrite (Hread 1), (Hread 2). split; vm_compute; reflexivity.
Defined.
